(** * World RNG Mix server (src/server.js, lines 1-216): a shallow embedding

    The first server of [src/server.js] mixes five entropy providers into one
    digit per round and drives the rounds with chained [setTimeout] callbacks.
    This development models:
    - the Node library primitives it calls ([crypto.createHash("sha256")],
      [crypto.createHmac("sha256")], [aes-256-ctr], [Buffer] hex encoding,
      [Date.prototype.toISOString], [BigInt('0x'+s)]), written to their
      standards and checked on published test vectors;
    - the repository's own code: [incrementCounter], [aesCtrNext],
      [maybeReseedFortuna], [rotl], [quarterRound], [chacha20Block],
      [fetchWithTimeout], [fetchNIST], [fetchDrand], [computeMixedDigit],
      [msUntilNextPreview] and [scheduleLoop];
    - the Node event loop as a step function over a world holding the clock,
      the pending timers and continuations, the provider state, the [stats]
      object and the log of [io.emit] events.

    Conventions.  A [Buffer] or [Uint32Array] is the list of its element
    values ([list Z]), as indexing it in JavaScript yields numbers.  A
    JavaScript string is a Rocq [string] whose characters are UTF-16 code
    units below 256.  JSON numbers are integers ([Z]).  Times are
    milliseconds since the epoch ([Z]). *)

From Stdlib Require Import ZArith List String Ascii Lia Permutation Bool.
Import ListNotations.
Open Scope list_scope.
Set Warnings "-register-all".
Open Scope Z_scope.

(** ** Bytes, words and hexadecimal text *)
Module Bytes.

(** [n] bytes big-endian of [x] (reduced modulo [256^n]). *)
Fixpoint be_bytes (n : nat) (x : Z) : list Z :=
  match n with
  | O => []
  | S n' => be_bytes n' (Z.shiftr x 8) ++ [Z.land x 255]
  end.

(** The unsigned big-endian value of a byte list. *)
Definition be_value (l : list Z) : Z :=
  fold_left (fun acc b => acc * 256 + b) l 0.

(** [n] bytes little-endian of [x]. *)
Fixpoint le_bytes (n : nat) (x : Z) : list Z :=
  match n with
  | O => []
  | S n' => Z.land x 255 :: le_bytes n' (Z.shiftr x 8)
  end.

(** [buf.readUInt32LE(off)]. *)
Definition readUInt32LE (buf : list Z) (off : nat) : Z :=
  let b i := nth (off + i) buf 0 in
  b 0%nat + 256 * b 1%nat + 65536 * b 2%nat + 16777216 * b 3%nat.

Definition hex_digit (d : Z) : ascii :=
  if d <? 10 then ascii_of_nat (Z.to_nat (48 + d))
  else ascii_of_nat (Z.to_nat (87 + d)).

(** [buf.toString("hex")]: two lower-case digits per byte. *)
Fixpoint hex (l : list Z) : string :=
  match l with
  | [] => EmptyString
  | b :: t => String (hex_digit (Z.shiftr b 4)) (String (hex_digit (Z.land b 15)) (hex t))
  end.

Definition hex_char_value (c : ascii) : option Z :=
  let n := Z.of_nat (nat_of_ascii c) in
  if (48 <=? n) && (n <=? 57) then Some (n - 48)
  else if (97 <=? n) && (n <=? 102) then Some (n - 87)
  else if (65 <=? n) && (n <=? 70) then Some (n - 55)
  else None.

Fixpoint hex_digits_value (acc : Z) (s : string) : option Z :=
  match s with
  | EmptyString => Some acc
  | String c t =>
      match hex_char_value c with
      | Some d => hex_digits_value (acc * 16 + d) t
      | None => None
      end
  end.

(** [BigInt('0x' + s)]: [None] stands for the [SyntaxError] it throws when
    [s] is empty or holds a character that is not a hexadecimal digit. *)
Definition parse_hex (s : string) : option Z :=
  match s with
  | EmptyString => None
  | _ => hex_digits_value 0 s
  end.

(** Encoding of a string for [hash.update(string)] (UTF-8 of each code unit). *)
Fixpoint utf8 (s : string) : list Z :=
  match s with
  | EmptyString => []
  | String c t =>
      let n := Z.of_nat (nat_of_ascii c) in
      (if n <? 128 then [n]
       else [Z.lor 192 (Z.shiftr n 6); Z.lor 128 (Z.land n 63)]) ++ utf8 t
  end.

Fixpoint chunks (fuel : nat) (k : nat) (l : list Z) : list (list Z) :=
  match fuel with
  | O => []
  | S f => match l with [] => [] | _ => firstn k l :: chunks f k (skipn k l) end
  end.

End Bytes.

(** ** The Node [crypto] primitives the server calls *)
Module NodeCrypto.
Import Bytes.

Definition mask32 (x : Z) : Z := Z.land x (2^32 - 1).
Definition rotr32 (x n : Z) : Z := Z.lor (Z.shiftr x n) (mask32 (Z.shiftl x (32 - n))).

(** Largest [r] in [[lo, hi)] with [f r], for [f] true then false. *)
Fixpoint bsearch (fuel : nat) (f : Z -> bool) (lo hi : Z) : Z :=
  match fuel with
  | O => lo
  | S k => let mid := (lo + hi) / 2 in
           if hi - lo <=? 1 then lo
           else if f mid then bsearch k f mid hi else bsearch k f lo mid
  end.

Definition icbrt (n : Z) : Z := bsearch 64 (fun r => r * r * r <=? n) 0 (2^40).

Definition is_prime (n : Z) : bool :=
  (2 <=? n) && forallb (fun d => negb (n mod d =? 0))
                       (map Z.of_nat (seq 2 (Z.to_nat n - 2))).

Definition primes64 : list Z :=
  Eval vm_compute in firstn 64 (filter is_prime (map Z.of_nat (seq 0 320))).

(** FIPS 180-4: fractional parts of cube roots and square roots of primes. *)
Definition K256 : list Z :=
  Eval vm_compute in map (fun p => mask32 (icbrt (p * 2^96))) primes64.

Definition H256 : list Z :=
  Eval vm_compute in map (fun p => mask32 (Z.sqrt (p * 2^64))) (firstn 8 primes64).

Definition ch (x y z : Z) := Z.lxor (Z.land x y) (Z.land (Z.lxor x (2^32 - 1)) z).
Definition maj (x y z : Z) := Z.lxor (Z.lxor (Z.land x y) (Z.land x z)) (Z.land y z).
Definition bsig0 x := Z.lxor (Z.lxor (rotr32 x 2) (rotr32 x 13)) (rotr32 x 22).
Definition bsig1 x := Z.lxor (Z.lxor (rotr32 x 6) (rotr32 x 11)) (rotr32 x 25).
Definition ssig0 x := Z.lxor (Z.lxor (rotr32 x 7) (rotr32 x 18)) (Z.shiftr x 3).
Definition ssig1 x := Z.lxor (Z.lxor (rotr32 x 17) (rotr32 x 19)) (Z.shiftr x 10).

(** The 64-word message schedule, built newest-first. *)
Fixpoint schedule_rev (n : nat) (w : list Z) : list Z :=
  match n with
  | O => w
  | S k =>
      let w' := schedule_rev k w in
      let at_ i := nth i w' 0 in
      mask32 (ssig1 (at_ 1%nat) + at_ 6%nat + ssig0 (at_ 14%nat) + at_ 15%nat) :: w'
  end.

Definition compress (h : list Z) (block : list Z) : list Z :=
  let w := rev (schedule_rev 48 (rev (map be_value (chunks 16 4 block)))) in
  let round (st : list Z) (kw : Z * Z) :=
    match st with
    | [a; b; c; d; e; f; g; hh] =>
        let t1 := mask32 (hh + bsig1 e + ch e f g + fst kw + snd kw) in
        let t2 := mask32 (bsig0 a + maj a b c) in
        [mask32 (t1 + t2); a; b; c; mask32 (d + t1); e; f; g]
    | _ => st
    end in
  let st := fold_left round (combine K256 w) h in
  map (fun p => mask32 (fst p + snd p)) (combine h st).

Definition pad (m : list Z) : list Z :=
  let len := Z.of_nat (List.length m) in
  let k := (55 - len) mod 64 in
  m ++ [128] ++ repeat 0 (Z.to_nat k) ++ be_bytes 8 (8 * len).

(** [crypto.createHash("sha256").update(m).digest()]. *)
Definition sha256 (m : list Z) : list Z :=
  let p := pad m in
  let h := fold_left compress (chunks (List.length p) 64 p) H256 in
  flat_map (be_bytes 4) h.

(** [crypto.createHmac("sha256", key).update(m).digest()]. *)
Definition hmac_sha256 (key m : list Z) : list Z :=
  let k := if (64 <? List.length key)%nat then sha256 key else key in
  let k' := k ++ repeat 0 (64 - List.length k) in
  let ipad := map (Z.lxor 54) k' in
  let opad := map (Z.lxor 92) k' in
  sha256 (opad ++ sha256 (ipad ++ m)).

(** AES-256 (FIPS 197), state in column-major byte order. *)
Definition xtime (b : Z) : Z :=
  Z.land (Z.lxor (Z.shiftl b 1) (if 128 <=? b then 27 else 0)) 255.

Fixpoint gmul_aux (n : nat) (a b acc : Z) : Z :=
  match n with
  | O => acc
  | S k => gmul_aux k (xtime a) (Z.shiftr b 1)
                    (if Z.testbit b 0 then Z.lxor acc a else acc)
  end.
Definition gmul (a b : Z) : Z := gmul_aux 8 a b 0.

Definition ginv (b : Z) : Z :=
  fold_left (fun acc _ => gmul acc b) (seq 0 253) b.

Definition rotl8 (x n : Z) : Z := Z.land (Z.lor (Z.shiftl x n) (Z.shiftr x (8 - n))) 255.

Definition sbox_of (b : Z) : Z :=
  let x := ginv b in
  Z.lxor (Z.lxor (Z.lxor (Z.lxor (Z.lxor x (rotl8 x 1)) (rotl8 x 2)) (rotl8 x 3)) (rotl8 x 4)) 99.

Definition sbox_table : list Z :=
  Eval vm_compute in map (fun n => sbox_of (Z.of_nat n)) (seq 0 256).

Definition sub_byte (b : Z) : Z := nth (Z.to_nat b) sbox_table 0.

Definition xor_bytes (a b : list Z) : list Z := map (fun p => Z.lxor (fst p) (snd p)) (combine a b).

Definition rcon : list Z := [1; 2; 4; 8; 16; 32; 64].

(** The 60 words of the AES-256 key schedule, each a list of 4 bytes. *)
Fixpoint expand_rev (n : nat) (i : nat) (ws : list (list Z)) : list (list Z) :=
  match n with
  | O => ws
  | S k =>
      let ws' := expand_rev k i ws in
      let j := (i + k)%nat in
      let temp := hd [] ws' in
      let temp' :=
        if Nat.eqb (j mod 8) 0 then
          match temp with
          | [a; b; c; d] =>
              xor_bytes (map sub_byte [b; c; d; a]) [nth (j / 8 - 1) rcon 0; 0; 0; 0]
          | _ => temp
          end
        else if Nat.eqb (j mod 8) 4 then map sub_byte temp else temp in
      xor_bytes (nth 7 ws' []) temp' :: ws'
  end.

Definition key_schedule (key : list Z) : list (list Z) :=
  rev (expand_rev 52 8 (rev (chunks 8 4 key))).

Definition round_key (ks : list (list Z)) (r : nat) : list Z :=
  List.concat (firstn 4 (skipn (4 * r) ks)).

Definition shift_rows (s : list Z) : list Z :=
  map (fun i => nth ((i mod 4) + 4 * (((i / 4) + (i mod 4)) mod 4)) s 0) (seq 0 16).

Definition mix_column (col : list Z) : list Z :=
  match col with
  | [a0; a1; a2; a3] =>
      [Z.lxor (Z.lxor (gmul 2 a0) (gmul 3 a1)) (Z.lxor a2 a3);
       Z.lxor (Z.lxor a0 (gmul 2 a1)) (Z.lxor (gmul 3 a2) a3);
       Z.lxor (Z.lxor a0 a1) (Z.lxor (gmul 2 a2) (gmul 3 a3));
       Z.lxor (Z.lxor (gmul 3 a0) a1) (Z.lxor a2 (gmul 2 a3))]
  | _ => col
  end.

Definition mix_columns (s : list Z) : list Z := flat_map mix_column (chunks 4 4 s).

Definition aes256_encrypt (key block : list Z) : list Z :=
  let ks := key_schedule key in
  let s0 := xor_bytes block (round_key ks 0) in
  let s13 := fold_left (fun s r => xor_bytes (mix_columns (shift_rows (map sub_byte s)))
                                             (round_key ks r))
                       (seq 1 13) s0 in
  xor_bytes (shift_rows (map sub_byte s13)) (round_key ks 14).

(** [crypto.createCipheriv("aes-256-ctr", key, iv).update(plain)]: the
    128-bit big-endian counter block starts at [iv]. *)
Definition aes256_ctr (key iv plain : list Z) : list Z :=
  let nblocks := ((List.length plain + 15) / 16)%nat in
  let stream := flat_map (fun i => aes256_encrypt key
                                    (be_bytes 16 (be_value iv + Z.of_nat i)))
                         (seq 0 nblocks) in
  xor_bytes plain stream.

End NodeCrypto.

(** ** JavaScript values and built-ins used by the server *)
Module JS.
Import Bytes.

(** [ToUint32] and [ToInt32] on integral numbers. *)
Definition to_uint32 (x : Z) : Z := x mod 2^32.
Definition to_int32 (x : Z) : Z :=
  let u := to_uint32 x in if 2^31 <=? u then u - 2^32 else u.

(** [x << c], [x >>> c], [a | b] and [a ^ b]. *)
Definition shl (x c : Z) : Z := to_int32 (Z.shiftl (to_uint32 x) (c mod 32)).
Definition ushr (x c : Z) : Z := Z.shiftr (to_uint32 x) (c mod 32).
Definition bor (a b : Z) : Z := Z.lor (to_int32 a) (to_int32 b).
Definition bxor (a b : Z) : Z := Z.lxor (to_int32 a) (to_int32 b).

(** [a[i] = v] on a typed array or [Buffer]: writes out of range are ignored. *)
Fixpoint set_nth (i : nat) (v : Z) (l : list Z) : list Z :=
  match l, i with
  | [], _ => []
  | _ :: t, O => v :: t
  | x :: t, S j => x :: set_nth j v t
  end.

(** Errors a callback can throw. *)
Inductive error :=
  | TypeError | SyntaxError | RangeError | AbortError | NetworkError
  | BadResponse | EntropyError.

(** A computation that returns or throws. *)
Inductive exc (A : Type) :=
  | Ret (a : A)
  | Throw (e : error).
Arguments Ret {A} a.
Arguments Throw {A} e.

Definition bind {A B} (m : exc A) (k : A -> exc B) : exc B :=
  match m with Ret a => k a | Throw e => Throw e end.

(** [try { m } catch (e) { h(e) }]. *)
Definition catch {A} (m : exc A) (h : error -> exc A) : exc A :=
  match m with Ret a => Ret a | Throw e => h e end.

Notation "x <- m ;; k" := (bind m (fun x => k)) (at level 61, m at next level, right associativity).

(** Decimal text of an integer ([Number.prototype.toString()]). *)
Fixpoint digits_rev (fuel : nat) (n : Z) : string :=
  match fuel with
  | O => EmptyString
  | S f => let d := String (hex_digit (n mod 10)) EmptyString in
           if n <? 10 then d else String.append (digits_rev f (n / 10)) d
  end.
Definition z_to_string (n : Z) : string :=
  if n <? 0 then String "-" (digits_rev (Z.to_nat (Z.log2_up (- n) + 1)) (- n))
  else digits_rev (Z.to_nat (Z.log2_up n + 1)) n.

(** [n] decimal digits of [x], zero-padded. *)
Fixpoint pad_digits (n : nat) (x : Z) : string :=
  match n with
  | O => EmptyString
  | S k => String.append (pad_digits k (x / 10)) (String (hex_digit (x mod 10)) EmptyString)
  end.

(** Gregorian date of a day count since 1970-01-01. *)
Definition civil_from_days (days : Z) : Z * Z * Z :=
  let z := days + 719468 in
  let era := z / 146097 in
  let doe := z - era * 146097 in
  let yoe := (doe - doe / 1460 + doe / 36524 - doe / 146096) / 365 in
  let doy := doe - (365 * yoe + yoe / 4 - yoe / 100) in
  let mp := (5 * doy + 2) / 153 in
  let d := doy - (153 * mp + 2) / 5 + 1 in
  let m := if mp <? 10 then mp + 3 else mp - 9 in
  let y := yoe + era * 400 + (if m <=? 2 then 1 else 0) in
  (y, m, d).

(** [new Date(ms).toISOString()]; it throws a [RangeError] outside the
    representable range of dates. *)
Definition toISOString (ms : Z) : exc string :=
  if 8640000000000000 <? Z.abs ms then Throw RangeError else
  let days := ms / 86400000 in
  let t := ms mod 86400000 in
  let '(y, mo, d) := civil_from_days days in
  let year :=
    if (0 <=? y) && (y <=? 9999) then pad_digits 4 y
    else String (if y <? 0 then "-" else "+") (pad_digits 6 (Z.abs y)) in
  Ret (String.concat "" [year; "-"; pad_digits 2 mo; "-"; pad_digits 2 d; "T";
                         pad_digits 2 (t / 3600000); ":"; pad_digits 2 ((t / 60000) mod 60); ":";
                         pad_digits 2 ((t / 1000) mod 60); "."; pad_digits 3 (t mod 1000); "Z"])%string.

(** Parsed JSON values ([res.json()]); [JNull] also stands for [undefined]:
    the code only tests such values for truthiness or reads through [?.],
    where the two behave alike. *)
Inductive json :=
  | JNull
  | JBool (b : bool)
  | JNum (n : Z)
  | JStr (s : string)
  | JArr (l : list json)
  | JObj (l : list (string * json)).

Definition truthy (v : json) : bool :=
  match v with
  | JNull => false
  | JBool b => b
  | JNum n => negb (n =? 0)
  | JStr s => negb (String.eqb s "")
  | JArr _ | JObj _ => true
  end.

(** [a || b]. *)
Definition js_or (a b : json) : json := if truthy a then a else b.

(** [v?.k] for the property names the server reads (none of them is
    inherited by strings, numbers or arrays); a parsed object keeps the last
    binding of a duplicated key. *)
Definition get_prop (v : json) (k : string) : json :=
  match v with
  | JObj l =>
      match find (fun p => String.eqb (fst p) k) (rev l) with
      | Some p => snd p
      | None => JNull
      end
  | _ => JNull
  end.

Definition has_own (v : json) (k : string) : bool :=
  match v with
  | JObj l => existsb (fun p => String.eqb (fst p) k) l
  | _ => false
  end.

(** [String(v)] and [v.toString()]: a parsed object whose own [toString]
    property is data (not a function) makes both throw a [TypeError]. *)
Fixpoint to_string (v : json) : exc string :=
  match v with
  | JNull => Ret "null"%string
  | JBool b => Ret (if b then "true" else "false")%string
  | JNum n => Ret (z_to_string n)
  | JStr s => Ret s
  | JArr l =>
      let fix elems (l : list json) : exc (list string) :=
        match l with
        | [] => Ret []
        | JNull :: t => r <- elems t ;; Ret (EmptyString :: r)
        | x :: t => s <- to_string x ;; r <- elems t ;; Ret (s :: r)
        end in
      r <- elems l ;; Ret (String.concat "," r)
  | JObj _ => if has_own v "toString" then Throw TypeError else Ret "[object Object]"%string
  end.

(** [v.slice(0, n)]: strings and arrays have it; calling it on any other
    value throws a [TypeError]. *)
Definition slice (v : json) (n : nat) : exc json :=
  match v with
  | JStr s => Ret (JStr (substring 0 n s))
  | JArr l => Ret (JArr (firstn n l))
  | _ => Throw TypeError
  end.

End JS.

(** ** Entropy providers and the mixer (server.js lines 20-151) *)
Module Mixer.
Import Bytes NodeCrypto JS.

(** [const fortuna = { key, counter, requests }] (line 21). *)
Record Fortuna := mkFortuna { f_key : list Z; f_counter : list Z; f_requests : Z }.

(** [const chacha = { key, nonce, counter }] (line 82). *)
Record ChaCha := mkChaCha { c_key : list Z; c_nonce : list Z; c_counter : Z }.

(** The provider state the module keeps between rounds. *)
Record Providers := mkProviders { fortuna : Fortuna; chacha : ChaCha }.

(** [crypto.randomBytes(n)]: the operating system supplies the bytes, given
    here as an integer; [None] is a failure of the OS source, which makes
    [randomBytes] throw. *)
Definition randomBytes (n : nat) (os : option Z) : exc (list Z) :=
  match os with
  | Some r => Ret (be_bytes n r)
  | None => Throw EntropyError
  end.

(** [incrementCounter(buf)] (lines 22-27): the loop runs [i = 15 .. 0]; the
    remaining iteration count [n] visits index [n - 1]. *)
Fixpoint increment_loop (n : nat) (buf : list Z) : list Z :=
  match n with
  | O => buf
  | S i =>
      let v := Z.land (nth i buf 0 + 1) 255 in
      let buf' := set_nth i v buf in
      if negb (v =? 0) then buf' else increment_loop i buf'
  end.
Definition incrementCounter (buf : list Z) : list Z := increment_loop 16 buf.

(** [aesCtrNext(key, counter, nbytes)] (lines 28-33): the key stream for
    [nbytes] zero bytes, and the caller's counter buffer incremented in place
    (returned here as the new counter). *)
Definition aesCtrNext (key counter : list Z) (nbytes : nat) : list Z * list Z :=
  (aes256_ctr key counter (repeat 0 nbytes), incrementCounter counter).

(** [maybeReseedFortuna()] (lines 34-41): [os] is what [randomBytes(32)]
    reads if the reseed happens. *)
Definition maybeReseedFortuna (os : option Z) (f : Fortuna) : exc Fortuna * Fortuna :=
  let req := f_requests f + 1 in
  let f1 := mkFortuna (f_key f) (f_counter f) req in
  if req mod 100 =? 0 then
    match randomBytes 32 os with
    | Ret extra => (Ret f1, mkFortuna (hmac_sha256 (f_key f) extra) (f_counter f) req)
    | Throw e => (Throw e, f1)
    end
  else (Ret f1, f1).

(** [rotl(v, c)] (line 44). *)
Definition rotl (v c : Z) : Z := ushr (bor (shl v c) (ushr v (32 - c))) 0.

(** [quarterRound(state, a, b, c, d)] (lines 45-50) on a [Uint32Array]:
    each store keeps the value modulo [2^32]. *)
Definition quarterRound (st : list Z) (a b c d : nat) : list Z :=
  let get s i := nth i s 0 in
  let put i v s := set_nth i (to_uint32 v) s in
  let s1 := put a (ushr (get st a + get st b) 0) st in
  let s2 := put d (rotl (bxor (get s1 d) (get s1 a)) 16) s1 in
  let s3 := put c (ushr (get s2 c + get s2 d) 0) s2 in
  let s4 := put b (rotl (bxor (get s3 b) (get s3 c)) 12) s3 in
  let s5 := put a (ushr (get s4 a + get s4 b) 0) s4 in
  let s6 := put d (rotl (bxor (get s5 d) (get s5 a)) 8) s5 in
  let s7 := put c (ushr (get s6 c + get s6 d) 0) s6 in
  put b (rotl (bxor (get s7 b) (get s7 c)) 7) s7.

Definition double_round (w : list Z) : list Z :=
  let w := quarterRound w 0 4 8 12 in
  let w := quarterRound w 1 5 9 13 in
  let w := quarterRound w 2 6 10 14 in
  let w := quarterRound w 3 7 11 15 in
  let w := quarterRound w 0 5 10 15 in
  let w := quarterRound w 1 6 11 12 in
  let w := quarterRound w 2 7 8 13 in
  quarterRound w 3 4 9 14.

(** [chacha20Block(key32, counter, nonce12)] (lines 51-81). *)
Definition chacha20Block (key32 : list Z) (counter : Z) (nonce12 : list Z) : list Z :=
  let constants := [1634760805; 857760878; 2036477234; 1797285236] in
  let k := map (fun i => readUInt32LE key32 (i * 4)) (seq 0 8) in
  let state := constants ++ k ++
               [ushr counter 0; readUInt32LE nonce12 0; readUInt32LE nonce12 4;
                readUInt32LE nonce12 8] in
  let working := fold_left (fun w _ => double_round w) (seq 0 10) state in
  flat_map (fun i => le_bytes 4 (ushr (nth i working 0 + nth i state 0) 0)) (seq 0 16).

(** Outcome of [await fetch(url, { signal })] and of [res.json()]:
    [FResponse status None] is a body that is not JSON. *)
Inductive FetchOutcome :=
  | FNetworkError
  | FTimeout
  | FResponse (status : Z) (body : option json).

(** [fetchWithTimeout(url, ms)] (lines 85-96); the outcome includes the
    abort by the timer. *)
Definition fetchWithTimeout (o : FetchOutcome) : exc json :=
  catch
    (match o with
     | FNetworkError => Throw NetworkError
     | FTimeout => Throw AbortError
     | FResponse status body =>
         if negb ((200 <=? status) && (status <=? 299)) then Throw BadResponse
         else match body with Some j => Ret j | None => Throw SyntaxError end
     end)
    (fun _ => Ret JNull).

(** [fetchNIST()] (lines 98-104). *)
Definition fetchNIST (o : FetchOutcome) : exc json :=
  catch
    (j <- fetchWithTimeout o ;;
     Ret (js_or (get_prop (get_prop j "pulse") "outputValue") JNull))
    (fun _ => Ret JNull).

(** The body of the loop in [fetchDrand] for one response [j] (line 110):
    [None] continues with the next URL. *)
Definition drand_pick (j : json) : option (exc json) :=
  if truthy j && (truthy (get_prop j "round") || truthy (get_prop j "signature")
                  || truthy (get_prop j "crypto_hash"))
  then Some
    (if truthy (get_prop j "random") then Ret (get_prop j "random") else
     r <- (match get_prop j "round" with
           | JNull => Ret JNull
           | v => s <- to_string v ;; Ret (JStr s)
           end) ;;
     Ret (if truthy r then r else js_or (get_prop j "signature") JNull))
  else None.

(** [fetchDrand()] (lines 105-113): the outcomes of the two URLs, tried in
    order. *)
Definition fetchDrand (o1 o2 : FetchOutcome) : exc json :=
  j1 <- fetchWithTimeout o1 ;;
  match drand_pick j1 with
  | Some r => r
  | None =>
      j2 <- fetchWithTimeout o2 ;;
      match drand_pick j2 with Some r => r | None => Ret JNull end
  end.

(** What the outside world supplies to one call of [computeMixedDigit]. *)
Record MixInput := mkMixInput {
  in_nist : FetchOutcome;
  in_drand1 : FetchOutcome;
  in_drand2 : FetchOutcome;
  in_openssl : option Z;
  in_reseed : option Z }.

(** [{ digit, hash, parts }]. *)
Record Mixed := mkMixed { digit : Z; hash : string; parts : list string }.

(** Lines 118-130 of [computeMixedDigit]: the two awaited fetches and the
    OpenSSL bytes, giving the parts collected so far. *)
Definition collect_parts (inp : MixInput) : exc (list string) :=
  nist <- fetchNIST (in_nist inp) ;;
  parts1 <- (if truthy nist
             then v <- slice nist 64 ;; s <- to_string v ;; Ret [("nist:" ++ s)%string]
             else Ret []) ;;
  dr <- fetchDrand (in_drand1 inp) (in_drand2 inp) ;;
  parts2 <- (if truthy dr
             then s <- to_string dr ;; Ret (parts1 ++ [("drand:" ++ substring 0 64 s)%string])
             else Ret parts1) ;;
  opensslBuf <- randomBytes 32 (in_openssl inp) ;;
  Ret (parts2 ++ [("openssl:" ++ hex opensslBuf)%string]).

(** Lines 142-150: the timestamp part, the hash and the digit. *)
Definition digest_parts (B : Z) (parts5 : list string) : exc Mixed :=
  ts <- toISOString B ;;
  let parts := parts5 ++ [("ts:" ++ ts)%string] in
  let combined := String.concat "|" parts in
  let hash := hex (sha256 (utf8 combined)) in
  let first16 := substring 0 16 hash in
  match parse_hex first16 with
  | Some v => Ret (mkMixed (v mod 10) hash parts)
  | None => Throw SyntaxError
  end.

(** [computeMixedDigit(minuteBoundaryMs)] (lines 116-151), with the provider
    state after the call, whether it returns or throws. *)
Definition computeMixedDigit (B : Z) (inp : MixInput) (p : Providers)
  : exc Mixed * Providers :=
  match collect_parts inp with
  | Throw e => (Throw e, p)
  | Ret parts3 =>
      match maybeReseedFortuna (in_reseed inp) (fortuna p) with
      | (Throw e, f1) => (Throw e, mkProviders f1 (chacha p))
      | (Ret _, f1) =>
          let '(fortunaOut, counter') := aesCtrNext (f_key f1) (f_counter f1) 32 in
          let f2 := mkFortuna (f_key f1) counter' (f_requests f1) in
          let ch := chacha p in
          let chachaBlock := chacha20Block (c_key ch) (c_counter ch) (c_nonce ch) in
          let ch' := mkChaCha (c_key ch) (c_nonce ch) (c_counter ch + 1) in
          let parts5 := parts3 ++ [("fortuna:" ++ hex fortunaOut)%string;
                                   ("chacha20:" ++ hex chachaBlock)%string] in
          (digest_parts B parts5, mkProviders f2 ch')
      end
  end.

End Mixer.

(** ** The round scheduler (server.js lines 153-216) as an event loop *)
Module Scheduler.
Import Bytes NodeCrypto JS Mixer.

(** [Math.ceil(t/60000)*60000] (lines 159 and 169); [t/60000] is computed in
    floating point, whose ceiling agrees with the exact one for every
    millisecond count below [2^53]. *)
Definition ceil_minute (t : Z) : Z := - ((- t) / 60000) * 60000.

(** [msUntilNextPreview()] (lines 157-162) at clock [now]. *)
Definition msUntilNextPreview (now : Z) : Z :=
  let nextMinute := ceil_minute now in
  let previewTime := nextMinute - 40000 in
  previewTime - now.

(** The [stats] object (line 155), as its properties in insertion order. *)
Definition stats_t := list (string * Z).

Definition stats0 : stats_t :=
  [("openssl", 0); ("fortuna", 0); ("chacha20", 0); ("nist", 0); ("drand", 0)]%string.

Fixpoint prop_get (k : string) (o : stats_t) : option Z :=
  match o with
  | [] => None
  | (k', v) :: t => if String.eqb k k' then Some v else prop_get k t
  end.

(** [o[k] = v]: an existing property keeps its place, a new one goes last. *)
Fixpoint prop_set (k : string) (v : Z) (o : stats_t) : stats_t :=
  match o with
  | [] => [(k, v)]
  | (k', v') :: t => if String.eqb k k' then (k', v) :: t else (k', v') :: prop_set k v t
  end.

(** [stats[k] = (stats[k] || 0) + 1] (line 183). *)
Definition bump (o : stats_t) (k : string) : stats_t :=
  let old := match prop_get k o with Some v => if v =? 0 then 0 else v | None => 0 end in
  prop_set k (old + 1) o.

(** The choice of [primary] (lines 176-181). *)
Definition primary_of (ps : list string) : string :=
  let has pre := existsb (String.prefix pre) ps in
  (if has "nist:" then "nist"
   else if has "drand:" then "drand"
   else if has "openssl:" then "openssl"
   else if has "fortuna:" then "fortuna"
   else if has "chacha20:" then "chacha20"
   else "openssl")%string.

(** Events pushed by [io.emit]. *)
Inductive Event :=
  | EvPreview (minuteBoundary previewAt : string) (d : Z) (h : string)
  | EvReveal (minuteBoundary revealAt : string) (d : Z) (h : string)
  | EvStats (snapshot : stats_t).

(** Pending callbacks: the [setTimeout] callback of [scheduleLoop]
    (line 168); the rest of that callback once the awaits of
    [computeMixedDigit] have settled (lines 173-200), with the boundary and
    its ISO text computed before them; and the reveal timer (line 192). *)
Inductive Task :=
  | TLoop
  | TMix (B : Z) (iso : string)
  | TReveal (B : Z) (iso : string) (m : Mixed).

Record Pending := mkPending { due : Z; task : Task }.

(** [alive] is false once the process has exited: a throw out of a timer
    callback is an uncaught exception (the reveal callback) or an unhandled
    rejection (the async [scheduleLoop] callback), and either ends a Node
    process (Node 15 and later). The timers armed before stay in [pending]
    but never fire. *)
Record World := mkWorld {
  now : Z;
  pending : list Pending;
  providers : Providers;
  stats : stats_t;
  log : list Event;
  alive : bool }.

(** What the outside world decides when the loop next runs a callback: which
    pending callback ([pick], an index), when ([fire_at]), how long the
    awaits of a mixing call take ([latency]) and what they and the OS return
    ([input]). *)
Record Choice := mkChoice { pick : nat; fire_at : Z; latency : Z; input : MixInput }.

(** [setTimeout(cb, d)] runs [cb] no earlier than [max(1, d)] ms later (Node
    treats delays below 1 or above [2^31 - 1] as 1). *)
Definition timer_delay (d : Z) : Z := if (d <? 1) || (2147483647 <? d) then 1 else d.

Definition add_pending (w : World) (d : Z) (t : Task) : World :=
  mkWorld (now w) (pending w ++ [mkPending (now w + d) t]) (providers w) (stats w) (log w)
    (alive w).

Definition emit (w : World) (e : Event) : World :=
  mkWorld (now w) (pending w) (providers w) (stats w) (log w ++ [e]) (alive w).

Definition set_providers (w : World) (p : Providers) : World :=
  mkWorld (now w) (pending w) p (stats w) (log w) (alive w).

Definition set_stats (w : World) (s : stats_t) : World :=
  mkWorld (now w) (pending w) (providers w) s (log w) (alive w).

(** A callback throws: the process exits. *)
Definition halt (w : World) : World :=
  mkWorld (now w) (pending w) (providers w) (stats w) (log w) false.

(** [scheduleLoop()] (lines 164-202) up to its [setTimeout]. *)
Definition scheduleLoop (w : World) : World :=
  let ms := msUntilNextPreview (now w) in
  let wait := Z.max 0 ms in
  add_pending w (timer_delay (wait + 10)) TLoop.

(** Running one callback; a throw out of it ends the process. *)
Definition run_task (t : Task) (c : Choice) (w : World) : World :=
  match t with
  | TLoop =>
      let nextMinuteBoundary := ceil_minute (now w) in
      match toISOString nextMinuteBoundary with
      | Throw _ => halt w
      | Ret iso => add_pending w (Z.max 0 (latency c)) (TMix nextMinuteBoundary iso)
      end
  | TMix B iso =>
      match computeMixedDigit B (input c) (providers w) with
      | (Throw _, p') => halt (set_providers w p')
      | (Ret mixed, p') =>
          let primary := primary_of (parts mixed) in
          let w1 := set_stats (set_providers w p') (bump (stats w) primary) in
          match toISOString (B - 40000) with
          | Throw _ => halt w1
          | Ret previewAt =>
              let w2 := emit w1 (EvPreview iso previewAt (digit mixed) (hash mixed)) in
              let delayToReveal := B - now w2 in
              let w3 := add_pending w2 (timer_delay (Z.max 0 delayToReveal)) (TReveal B iso mixed) in
              scheduleLoop w3
          end
      end
  | TReveal B iso mixed =>
      match toISOString B with
      | Throw _ => halt w
      | Ret revealAt =>
          let w1 := emit w (EvReveal iso revealAt (digit mixed) (hash mixed)) in
          emit w1 (EvStats (stats w1))
      end
  end.

(** Removing the [i]-th pending callback. *)
Fixpoint take (i : nat) (ps : list Pending) : option (Pending * list Pending) :=
  match ps, i with
  | [], _ => None
  | p :: t, O => Some (p, t)
  | p :: t, S j => match take j t with Some (q, r) => Some (q, p :: r) | None => None end
  end.

(** One turn of the event loop of a running process: the chosen callback
    must be among the earliest due, and runs at a time no earlier than its
    due time. *)
Definition step (w : World) (c : Choice) : option World :=
  match take (pick c) (pending w) with
  | None => None
  | Some (p, rest) =>
      if alive w && forallb (fun q => due p <=? due q) (pending w)
         && (now w <=? fire_at c) && (due p <=? fire_at c)
      then Some (run_task (task p) c
                  (mkWorld (fire_at c) rest (providers w) (stats w) (log w) (alive w)))
      else None
  end.

Fixpoint run (w : World) (cs : list Choice) : option World :=
  match cs with
  | [] => Some w
  | c :: t => match step w c with Some w' => run w' t | None => None end
  end.

(** Module start (lines 21, 82, 155) and [server.listen]'s callback
    (line 215) at clock [t0]; [fk], [ck] and [cn] are the OS bytes of the
    initial Fortuna key, ChaCha key and ChaCha nonce. *)
Definition init (t0 fk ck cn : Z) : World :=
  scheduleLoop
    (mkWorld t0 []
       (mkProviders (mkFortuna (be_bytes 32 fk) (repeat 0 16) 0)
                    (mkChaCha (be_bytes 32 ck) (be_bytes 12 cn) 1))
       stats0 [] true).

(** The worlds a run reaches; the process starts after the epoch. *)
Definition reachable (w : World) : Prop :=
  exists t0 fk ck cn cs, 0 <= t0 /\ run (init t0 fk ck cn) cs = Some w.

End Scheduler.

(** ** Properties stated over the model *)
Module Spec.
Import Bytes NodeCrypto JS Mixer Scheduler.

(** A digit is recomputable from a hash: the first 16 hexadecimal characters
    read as an unsigned integer, modulo 10. *)
Definition digit_ok (d : Z) (h : string) : Prop :=
  exists v, parse_hex (substring 0 16 h) = Some v /\ d = v mod 10.

(** What identifies a disclosed value: boundary text, digit and hash. *)
Definition key : Type := (string * Z * string)%type.

Definition preview_keys (l : list Event) : list key :=
  flat_map (fun e => match e with EvPreview b _ d h => [(b, d, h)] | _ => [] end) l.

Definition reveal_keys (l : list Event) : list key :=
  flat_map (fun e => match e with EvReveal b _ d h => [(b, d, h)] | _ => [] end) l.

Definition pending_reveal_keys (ps : list Pending) : list key :=
  flat_map (fun p => match task p with
                     | TReveal _ iso m => [(iso, digit m, hash m)]
                     | _ => [] end) ps.

(** Callbacks of the loop itself: a [scheduleLoop] timer or a mixing call. *)
Definition loop_items (ps : list Pending) : nat :=
  List.length (flat_map (fun p => match task p with
                                  | TLoop | TMix _ _ => [tt]
                                  | TReveal _ _ _ => [] end) ps).

(** Rounds in flight: being mixed, or mixed and not yet revealed. *)
Definition active_rounds (ps : list Pending) : nat :=
  List.length (flat_map (fun p => match task p with
                                  | TLoop => []
                                  | TMix _ _ | TReveal _ _ _ => [tt] end) ps).

Definition preview_boundaries (l : list Event) : list string :=
  flat_map (fun e => match e with EvPreview b _ _ _ => [b] | _ => [] end) l.

Definition stats_sum (o : stats_t) : Z := fold_right (fun kv acc => snd kv + acc) 0 o.

Definition stat (k : string) (o : stats_t) : Z :=
  match prop_get k o with Some v => v | None => 0 end.

(** The spec's priority order of providers, and its primary provider of a
    round: the first one in that order with a part tagged by its name. *)
Definition priority : list string := ["nist"; "drand"; "openssl"; "fortuna"; "chacha20"]%string.

Definition spec_primary (ps : list string) : option string :=
  find (fun name => existsb (String.prefix (name ++ ":")) ps) priority.

Definition task_ok (p : Pending) : Prop :=
  match task p with
  | TLoop => True
  | TMix B iso => toISOString B = Ret iso /\ 0 <= B
  | TReveal B iso m => toISOString B = Ret iso /\ digit_ok (digit m) (hash m)
  end.

Definition event_ok (e : Event) : Prop :=
  match e with
  | EvPreview _ _ d h | EvReveal _ _ d h => digit_ok d h
  | EvStats _ => True
  end.

(** The invariant of reachable worlds. *)
Record Inv (w : World) : Prop := {
  inv_now : 0 <= now w;
  inv_tasks : Forall task_ok (pending w);
  inv_events : Forall event_ok (log w);
  inv_pair : Permutation (preview_keys (log w))
                         (reveal_keys (log w) ++ pending_reveal_keys (pending w));
  inv_sum : stats_sum (stats w) = Z.of_nat (List.length (preview_keys (log w)));
  inv_loop : (loop_items (pending w) <= 1)%nat }.

(** Claim C2 as the spec states it: at most one round in flight. *)
Definition one_active_round : Prop :=
  forall w, reachable w -> (active_rounds (pending w) <= 1)%nat.

(** Claim C3 as the spec states it: consecutive rounds have different (in
    fact increasing) boundaries. *)
Definition boundaries_advance : Prop :=
  forall w, reachable w -> forall i b1 b2,
    nth_error (preview_boundaries (log w)) i = Some b1 ->
    nth_error (preview_boundaries (log w)) (S i) = Some b2 -> b1 <> b2.

(** Claim C7 as the spec states it: the boundary lies strictly after [now]. *)
Definition boundary_strictly_after : Prop := forall t, t < ceil_minute t.

(** Claim C8 as the spec states it: after a mixing call throws for lack of
    OS entropy, the scheduler goes on, so some continuation of the run
    previews a later round. *)
Definition rearms_after_fatal_mix : Prop :=
  forall w c w' p rest B iso,
    reachable w -> step w c = Some w' ->
    take (pick c) (pending w) = Some (p, rest) -> task p = TMix B iso ->
    in_openssl (input c) = None ->
    exists cs w'', run w' cs = Some w'' /\
                   (List.length (preview_keys (log w)) < List.length (preview_keys (log w'')))%nat.




End Spec.

(** ** Concrete runs used as witnesses and counterexamples *)
Module Scenarios.
Import Bytes NodeCrypto JS Mixer Scheduler Spec.

(** Every remote fetch times out; the OS supplies entropy. *)
Definition inp_local : MixInput := mkMixInput FTimeout FTimeout FTimeout (Some 1) (Some 2).

(** As [inp_local], but [crypto.randomBytes(32)] at line 129 throws. *)
Definition inp_no_entropy : MixInput := mkMixInput FTimeout FTimeout FTimeout None (Some 2).

(** A beacon response whose [pulse.outputValue] is a number. *)
Definition nist_numeric : FetchOutcome :=
  FResponse 200 (Some (JObj [("pulse", JObj [("outputValue", JNum 123)])]%string)).

Definition inp_nist_numeric : MixInput :=
  mkMixInput nist_numeric FTimeout FTimeout (Some 1) (Some 2).

(** The server started at 1970-01-01T00:00:10Z. *)
Definition world0 : World := init 10000 5 6 7.

Definition P0 : Providers := providers world0.

Definition world_of (cs : list Choice) : World :=
  match run world0 cs with Some w => w | None => world0 end.

(** The first [scheduleLoop] timer fires at 00:00:20.010 and its awaits take
    13 s (the three fetch timeouts); the loop timer armed after the preview
    fires 10 ms later and starts a second mixing call for the same boundary. *)
Definition busy_choices : list Choice :=
  [mkChoice 0 20010 13000 inp_local; mkChoice 0 33010 0 inp_local;
   mkChoice 1 33020 13000 inp_local; mkChoice 1 46020 0 inp_local].

Definition busy_world : World := world_of busy_choices.

(** A run with 20 s awaits: one preview, then the reveal at 00:01:00. *)
Definition demo_choices : list Choice :=
  [mkChoice 0 20010 20000 inp_local; mkChoice 0 40010 0 inp_local;
   mkChoice 1 40020 20000 inp_local; mkChoice 0 60000 0 inp_local].

Definition demo_world : World := world_of demo_choices.

(** The world with the first mixing call pending, the choice that completes
    it, and the world after it. *)
Definition mix_world : World := world_of (firstn 1 demo_choices).
Definition mix_choice : Choice := nth 1 demo_choices (mkChoice 0 0 0 inp_local).
Definition round_world : World := world_of (firstn 2 demo_choices).

(** The same pending mixing call, completed with no OS entropy. *)
Definition fatal_choice : Choice := mkChoice 0 40010 0 inp_no_entropy.
Definition fatal_world : World := world_of (firstn 1 demo_choices ++ [fatal_choice]).

(** As [busy_choices], but the second mixing call finds no OS entropy while
    the reveal timer of the first round is armed. *)
Definition before_crash : World := world_of (firstn 3 busy_choices).
Definition crash_choice : Choice := mkChoice 1 46020 0 inp_no_entropy.
Definition crashed_world : World := world_of (firstn 3 busy_choices ++ [crash_choice]).

(** One mixing call from the initial providers. *)
Definition mix0 : exc Mixed * Providers := computeMixedDigit 60000 inp_local P0.
Definition mixed0 : Mixed :=
  match fst mix0 with Ret m => m | Throw _ => mkMixed 0 EmptyString [] end.

End Scenarios.

(** ** Proofs *)
Module Proofs.
Import Bytes NodeCrypto JS Mixer Scheduler Spec Scenarios.

Lemma bind_ret {A B} (m : exc A) (k : A -> exc B) b :
  bind m k = Ret b -> exists a, m = Ret a /\ k a = Ret b.
Proof. destruct m; simpl; [eauto | discriminate]. Qed.

Lemma take_perm i ps p rest :
  take i ps = Some (p, rest) -> Permutation ps (p :: rest).
Proof.
  revert i p rest; induction ps as [|q ps IH]; intros [|i] p rest H; simpl in H;
    try discriminate.
  - injection H as <- <-; reflexivity.
  - destruct (take i ps) as [[p' r]|] eqn:E; [|discriminate].
    injection H as <- <-.
    apply IH in E. rewrite E. apply perm_swap.
Qed.

Lemma toISOString_ok t s : toISOString t = Ret s -> Z.abs t <= 8640000000000000.
Proof.
  unfold toISOString. destruct (8640000000000000 <? Z.abs t) eqn:E.
  - discriminate.
  - intros _. apply Z.ltb_ge in E. exact E.
Qed.

Lemma toISOString_in_range t : Z.abs t <= 8640000000000000 -> exists s, toISOString t = Ret s.
Proof.
  intros H. unfold toISOString. apply Z.ltb_ge in H. rewrite H.
  destruct (civil_from_days (t / 86400000)) as [[y mo] d]. eauto.
Qed.

Lemma ceil_minute_ge t : t <= ceil_minute t.
Proof.
  unfold ceil_minute.
  pose proof (Z.mul_div_le (- t) 60000 ltac:(lia)). lia.
Qed.

Lemma digest_parts_shape B ps m :
  digest_parts B ps = Ret m ->
  (exists ts, toISOString B = Ret ts /\ parts m = ps ++ [("ts:" ++ ts)%string]) /\
  hash m = hex (sha256 (utf8 (String.concat "|" (parts m)))) /\
  digit_ok (digit m) (hash m).
Proof.
  unfold digest_parts. intros H. apply bind_ret in H as [ts [Hts H]].
  destruct (parse_hex _) as [v|] eqn:Hv; [|discriminate].
  injection H as <-. cbn [parts hash digit]. split; [eauto|]. split; [reflexivity|].
  exists v. split; [exact Hv | reflexivity].
Qed.

Lemma computeMixedDigit_ret B inp p m p' :
  computeMixedDigit B inp p = (Ret m, p') ->
  exists parts3 parts5, collect_parts inp = Ret parts3 /\ digest_parts B (parts3 ++ parts5) = Ret m.
Proof.
  intros H. unfold computeMixedDigit in H.
  destruct (collect_parts inp) as [parts3|e]. 2: discriminate H.
  destruct (maybeReseedFortuna _ _) as [[u|e] f1]. 2: discriminate H.
  destruct (aesCtrNext _ _ _) as [out ctr'].
  cbv beta iota zeta in H. apply (f_equal fst) in H. cbv beta iota delta [fst] in H.
  exists parts3. eexists. split; [reflexivity | exact H].
Qed.

Lemma mixed_digit_ok B inp p m p' :
  computeMixedDigit B inp p = (Ret m, p') -> digit_ok (digit m) (hash m).
Proof.
  intros H. apply computeMixedDigit_ret in H as (? & ? & _ & H).
  apply digest_parts_shape in H. tauto.
Qed.

Lemma prop_get_set k k' v o :
  prop_get k (prop_set k' v o) = if String.eqb k k' then Some v else prop_get k o.
Proof.
  induction o as [|[k0 v0] o IH]; cbn [prop_set prop_get].
  - destruct (String.eqb k k'); reflexivity.
  - destruct (String.eqb k' k0) eqn:E.
    + apply String.eqb_eq in E; subst k0. cbn [prop_get].
      destruct (String.eqb k k'); reflexivity.
    + cbn [prop_get]. rewrite IH.
      destruct (String.eqb k k') eqn:E1; [|reflexivity].
      apply String.eqb_eq in E1; subst k.
      rewrite E. reflexivity.
Qed.

Lemma sum_prop_set k v o :
  stats_sum (prop_set k v o) = stats_sum o - stat k o + v.
Proof.
  unfold stat. induction o as [|[k0 v0] o IH]; cbn [prop_set prop_get stats_sum fold_right snd].
  - unfold stats_sum; simpl. lia.
  - destruct (String.eqb k k0) eqn:E.
    + unfold stats_sum; cbn [fold_right snd]. lia.
    + unfold stats_sum in *; cbn [fold_right snd]. rewrite IH. lia.
Qed.

Lemma bump_old o k :
  (match prop_get k o with Some v => if v =? 0 then 0 else v | None => 0 end) = stat k o.
Proof.
  unfold stat. destruct (prop_get k o) as [v|]; [|reflexivity].
  destruct (Z.eqb_spec v 0); lia.
Qed.

Lemma sum_bump o k : stats_sum (bump o k) = stats_sum o + 1.
Proof. unfold bump. rewrite bump_old, sum_prop_set. lia. Qed.

Lemma stat_bump o k k' :
  stat k' (bump o k) = stat k' o + (if String.eqb k' k then 1 else 0).
Proof.
  unfold bump. rewrite bump_old. unfold stat at 1. rewrite prop_get_set.
  destruct (String.eqb k' k) eqn:E.
  - apply String.eqb_eq in E; subst. reflexivity.
  - unfold stat. lia.
Qed.

Lemma step_cases w c w' :
  step w c = Some w' ->
  exists p rest,
    take (pick c) (pending w) = Some (p, rest) /\
    forallb (fun q => due p <=? due q) (pending w) = true /\
    now w <= fire_at c /\ due p <= fire_at c /\
    w' = run_task (task p) c (mkWorld (fire_at c) rest (providers w) (stats w) (log w) true).
Proof.
  unfold step. destruct (take (pick c) (pending w)) as [[p rest]|]; [|discriminate].
  destruct (alive w); [cbn [andb] | cbn [andb]; discriminate].
  destruct (forallb _ _) eqn:E1; [|discriminate].
  destruct (now w <=? fire_at c) eqn:E2; [|discriminate].
  destruct (due p <=? fire_at c) eqn:E3; [|discriminate].
  intros H. injection H as <-.
  apply Z.leb_le in E2, E3. exists p, rest. auto.
Qed.

Lemma step_alive w c w' : step w c = Some w' -> alive w = true.
Proof.
  unfold step. destruct (take (pick c) (pending w)) as [[p rest]|]; [|discriminate].
  destruct (alive w); [reflexivity | cbn [andb]; discriminate].
Qed.

(** Once the process has exited, no callback runs any more. *)
Lemma step_halted w c : alive w = false -> step w c = None.
Proof.
  intros H. unfold step. destruct (take (pick c) (pending w)) as [[p rest]|]; [|reflexivity].
  rewrite H. reflexivity.
Qed.

Lemma run_halted w cs w'' : alive w = false -> run w cs = Some w'' -> w'' = w.
Proof.
  intros H. destruct cs as [|c cs]; cbn [run].
  - intros E. injection E as <-. reflexivity.
  - rewrite (step_halted w c H). discriminate.
Qed.

Lemma preview_keys_app l l' : preview_keys (l ++ l') = preview_keys l ++ preview_keys l'.
Proof. apply flat_map_app. Qed.
Lemma reveal_keys_app l l' : reveal_keys (l ++ l') = reveal_keys l ++ reveal_keys l'.
Proof. apply flat_map_app. Qed.
Lemma pending_reveal_keys_app l l' :
  pending_reveal_keys (l ++ l') = pending_reveal_keys l ++ pending_reveal_keys l'.
Proof. apply flat_map_app. Qed.
Lemma loop_items_app l l' : loop_items (l ++ l') = (loop_items l + loop_items l')%nat.
Proof. unfold loop_items. rewrite flat_map_app, length_app. reflexivity. Qed.

Lemma loop_items_perm l l' : Permutation l l' -> loop_items l = loop_items l'.
Proof. intros H. unfold loop_items. apply Permutation_length, Permutation_flat_map, H. Qed.

Lemma pending_reveal_keys_perm l l' :
  Permutation l l' -> Permutation (pending_reveal_keys l) (pending_reveal_keys l').
Proof. intros H. apply Permutation_flat_map, H. Qed.

Lemma loop_items_cons p l :
  loop_items (p :: l) =
  ((match task p with TLoop | TMix _ _ => 1 | TReveal _ _ _ => 0 end) + loop_items l)%nat.
Proof. unfold loop_items. cbn [flat_map]. destruct (task p); reflexivity. Qed.

Lemma pending_reveal_keys_cons p l :
  pending_reveal_keys (p :: l) =
  (match task p with TReveal _ iso m => [(iso, digit m, hash m)] | _ => [] end)
    ++ pending_reveal_keys l.
Proof. reflexivity. Qed.

Lemma init_inv t0 fk ck cn : 0 <= t0 -> Inv (init t0 fk ck cn).
Proof.
  intros H. unfold init, scheduleLoop, add_pending.
  constructor; cbn [now pending log stats app].
  - exact H.
  - repeat constructor.
  - constructor.
  - constructor.
  - reflexivity.
  - unfold loop_items. cbn. lia.
Qed.

Lemma step_preserves w c w' : Inv w -> step w c = Some w' -> Inv w'.
Proof.
  intros I Hs. apply step_cases in Hs as (p & rest & Ht & _ & Hnow & _ & ->).
  pose proof (take_perm _ _ _ _ Ht) as Hp.
  destruct I as [In0 It Ie Ipair Isum Iloop].
  eapply Permutation_Forall in It; [|exact Hp]. inversion It as [|? ? Hpok Hrest]; subst.
  rewrite (loop_items_perm _ _ Hp), loop_items_cons in Iloop.
  assert (Ipair' : Permutation (preview_keys (log w))
                     (reveal_keys (log w) ++ pending_reveal_keys (p :: rest))).
  { eapply Permutation_trans; [exact Ipair|].
    apply Permutation_app_head, pending_reveal_keys_perm, Hp. }
  clear Ipair. rewrite pending_reveal_keys_cons in Ipair'.
  unfold task_ok in Hpok.
  destruct (task p) as [|B iso|B iso m] eqn:Etask; unfold run_task;
    cbn [now pending providers stats log].
  - (* the scheduleLoop timer *)
    destruct (toISOString (ceil_minute (fire_at c))) as [iso|e] eqn:Hiso.
    + unfold add_pending; constructor; cbn [now pending providers stats log].
      * lia.
      * apply Forall_app; split; [exact Hrest|].
        constructor; [|constructor]. unfold task_ok; cbn [task].
        split; [exact Hiso|]. pose proof (ceil_minute_ge (fire_at c)). lia.
      * exact Ie.
      * rewrite pending_reveal_keys_app. cbn. rewrite app_nil_r. exact Ipair'.
      * exact Isum.
      * rewrite loop_items_app. unfold loop_items at 2. cbn. lia.
    + unfold halt; constructor; cbn [now pending providers stats log]; auto; lia.
  - (* the rest of a mixing call *)
    destruct Hpok as [HB HB0].
    destruct (computeMixedDigit B (input c) (providers w)) as [[m|e] p'] eqn:Hm.
    + pose proof (toISOString_ok _ _ HB) as Hr.
      destruct (toISOString_in_range (B - 40000)) as [pa Hpa]; [lia|]. rewrite Hpa.
      unfold scheduleLoop, add_pending, emit, set_stats, set_providers.
      constructor; cbn [now pending providers stats log].
      * lia.
      * repeat (apply Forall_app; split); auto.
        -- constructor; [|constructor]. unfold task_ok; cbn [task].
           split; [exact HB | eapply mixed_digit_ok; exact Hm].
        -- constructor; [|constructor]. unfold task_ok; cbn [task]. exact I.
      * apply Forall_app; split; [exact Ie|].
        constructor; [|constructor]. cbn [event_ok]. eapply mixed_digit_ok; exact Hm.
      * rewrite preview_keys_app, reveal_keys_app, !pending_reveal_keys_app.
        cbn. rewrite !app_nil_r, app_assoc.
        apply Permutation_app_tail. exact Ipair'.
      * rewrite sum_bump, Isum, preview_keys_app, length_app. cbn [preview_keys flat_map List.length app].
        lia.
      * rewrite !loop_items_app. unfold loop_items at 2 3. cbn. lia.
    + unfold halt, set_providers; constructor; cbn [now pending providers stats log]; auto; lia.
  - (* the reveal timer *)
    destruct Hpok as [HB Hd]. rewrite HB.
    unfold emit. constructor; cbn [now pending providers stats log].
    + lia.
    + exact Hrest.
    + rewrite <- app_assoc. apply Forall_app; split; [exact Ie|].
      constructor; [exact Hd|]. constructor; [exact I|constructor].
    + rewrite <- app_assoc, preview_keys_app, reveal_keys_app. cbn.
      rewrite app_nil_r, <- app_assoc. exact Ipair'.
    + rewrite <- app_assoc, preview_keys_app. cbn. rewrite app_nil_r. exact Isum.
    + lia.
Qed.

Lemma run_preserves w cs w' : Inv w -> run w cs = Some w' -> Inv w'.
Proof.
  revert w; induction cs as [|c cs IH]; intros w I H; cbn [run] in H.
  - injection H as <-. exact I.
  - destruct (step w c) as [w1|] eqn:E; [|discriminate].
    exact (IH w1 (step_preserves _ _ _ I E) H).
Qed.

Lemma reachable_inv w : reachable w -> Inv w.
Proof.
  intros (t0 & fk & ck & cn & cs & H0 & H).
  exact (run_preserves _ _ _ (init_inv t0 fk ck cn H0) H).
Qed.

Lemma set_nth_length i v l : List.length (set_nth i v l) = List.length l.
Proof. revert i; induction l as [|a l IH]; intros [|i]; cbn; auto. Qed.

Lemma set_nth_app_l i v l r :
  (i < List.length l)%nat -> set_nth i v (l ++ r) = set_nth i v l ++ r.
Proof.
  revert i; induction l as [|a l IH]; intros [|i] H; cbn in *; try lia; try reflexivity.
  rewrite IH by lia. reflexivity.
Qed.

Lemma set_nth_last v l x r : set_nth (List.length l) v (l ++ x :: r) = l ++ v :: r.
Proof. induction l as [|a l IH]; cbn; [reflexivity | rewrite IH; reflexivity]. Qed.

Lemma increment_loop_app n l r :
  (n <= List.length l)%nat -> increment_loop n (l ++ r) = increment_loop n l ++ r.
Proof.
  revert l; induction n as [|i IH]; intros l H; cbn [increment_loop]; [reflexivity|].
  rewrite app_nth1 by lia. rewrite set_nth_app_l by lia.
  destruct (negb _); [reflexivity|].
  rewrite IH; [reflexivity | rewrite set_nth_length; lia].
Qed.

Lemma be_value_snoc l x : be_value (l ++ [x]) = be_value l * 256 + x.
Proof. unfold be_value. rewrite fold_left_app. reflexivity. Qed.

Lemma be_value_bound l :
  Forall (fun b => 0 <= b < 256) l -> 0 <= be_value l < 256 ^ Z.of_nat (List.length l).
Proof.
  induction l as [|x l IH] using rev_ind; intros H.
  - cbn. lia.
  - apply Forall_app in H as [H1 H2]. inversion H2; subst.
    rewrite be_value_snoc, length_app, Nat2Z.inj_add, Z.pow_add_r by lia.
    specialize (IH H1). cbn [List.length Z.of_nat]. rewrite Z.pow_1_r. nia.
Qed.

Lemma land255 x : Z.land x 255 = x mod 256.
Proof. change 255 with (Z.ones 8). rewrite Z.land_ones by lia. reflexivity. Qed.

Lemma increment_loop_spec n l :
  List.length l = n -> Forall (fun b => 0 <= b < 256) l ->
  be_value (increment_loop n l) = (be_value l + 1) mod 256 ^ Z.of_nat n /\
  List.length (increment_loop n l) = n /\
  Forall (fun b => 0 <= b < 256) (increment_loop n l).
Proof.
  revert l; induction n as [|i IH]; intros l Hl Hb.
  - destruct l; [|discriminate]. cbn. auto.
  - destruct (exists_last (l := l)) as [l' [x ->]]; [intros ->; discriminate|].
    rewrite length_app in Hl; cbn in Hl.
    assert (Hl' : List.length l' = i) by lia. clear Hl. rename Hl' into Hl.
    apply Forall_app in Hb as [Hb' Hx]. pose proof (Forall_inv Hx) as Hx'. cbv beta in Hx'.
    cbn [increment_loop].
    rewrite !app_nth2 by lia. replace (i - List.length l')%nat with 0%nat by lia. cbn [nth].
    rewrite !land255.
    assert (E : forall v, set_nth i v (l' ++ [x]) = l' ++ [v])
      by (intros v; rewrite <- Hl; apply set_nth_last).
    rewrite !E.
    pose proof (be_value_bound l' Hb') as Hv. rewrite Hl in Hv.
    rewrite Nat2Z.inj_succ, Z.pow_succ_r by lia.
    rewrite be_value_snoc.
    destruct (Z.eq_dec x 255) as [->|Hne].
    + change ((255 + 1) mod 256) with 0. cbn [negb Z.eqb].
      rewrite increment_loop_app by lia.
      destruct (IH l' Hl Hb') as (IH1 & IH2 & IH3).
      rewrite be_value_snoc, IH1, length_app, IH2. cbn [List.length].
      split; [|split].
      * replace (be_value l' * 256 + 255 + 1) with ((be_value l' + 1) * 256) by ring.
        rewrite (Z.mul_comm 256 (256 ^ Z.of_nat i)).
        rewrite Z.mul_mod_distr_r by lia. lia.
      * lia.
      * apply Forall_app; split; [exact IH3|]. constructor; [lia|constructor].
    + rewrite (Z.mod_small (x + 1) 256) by lia.
      replace (x + 1 =? 0) with false by (symmetry; apply Z.eqb_neq; lia). cbn [negb].
      rewrite be_value_snoc, length_app. cbn [List.length].
      split; [|split].
      * rewrite Z.mod_small by nia. ring.
      * lia.
      * apply Forall_app; split; [exact Hb'|]. constructor; [lia|constructor].
Qed.

(** Shape of the parts gathered before the Fortuna step. *)
Lemma collect_parts_shape inp ps :
  collect_parts inp = Ret ps ->
  exists pre buf, in_openssl inp <> None /\ ps = pre ++ [("openssl:" ++ hex buf)%string].
Proof.
  unfold collect_parts. intros H.
  apply bind_ret in H as [nist [_ H]].
  apply bind_ret in H as [parts1 [_ H]].
  apply bind_ret in H as [dr [_ H]].
  apply bind_ret in H as [parts2 [_ H]].
  apply bind_ret in H as [buf [Hb H]].
  injection H as <-. exists parts2, buf. split; [|reflexivity].
  destruct (in_openssl inp); [discriminate|]. cbn in Hb. discriminate.
Qed.

Lemma collect_parts_no_entropy inp :
  in_openssl inp = None -> exists e, collect_parts inp = Throw e.
Proof.
  intros Hn. unfold collect_parts. rewrite Hn.
  destruct (fetchNIST (in_nist inp)) as [nist|e]; cbn [bind]; [|eauto].
  destruct (if truthy nist then _ else _) as [parts1|e]; cbn [bind]; [|eauto].
  destruct (fetchDrand (in_drand1 inp) (in_drand2 inp)) as [dr|e]; cbn [bind]; [|eauto].
  destruct (if truthy dr then _ else _) as [parts2|e]; cbn [bind randomBytes]; eauto.
Qed.

Lemma computeMixedDigit_no_entropy B inp p :
  in_openssl inp = None -> exists e, computeMixedDigit B inp p = (Throw e, p).
Proof.
  intros Hn. destruct (collect_parts_no_entropy inp Hn) as [e He].
  exists e. unfold computeMixedDigit. rewrite He. reflexivity.
Qed.

Lemma prefix_append pre s : String.prefix pre (pre ++ s) = true.
Proof.
  induction pre as [|a pre IH]; cbn.
  - destruct s; reflexivity.
  - destruct (ascii_dec a a) as [_|n]; [exact IH | congruence].
Qed.

Lemma mixed_has_openssl B inp p m p' :
  computeMixedDigit B inp p = (Ret m, p') ->
  existsb (String.prefix "openssl:") (parts m) = true.
Proof.
  intros H. destruct (computeMixedDigit_ret _ _ _ _ _ H) as (ps3 & ps5 & Hc & Hd).
  destruct (collect_parts_shape _ _ Hc) as (pre & buf & _ & ->).
  destruct (digest_parts_shape _ _ _ Hd) as [(ts & _ & ->) _].
  rewrite !existsb_app. cbn [existsb]. rewrite prefix_append.
  rewrite !Bool.orb_true_r, Bool.orb_true_l. reflexivity.
Qed.

(** With an [openssl:] part present, the code's [primary] is the first
    provider in the spec's priority order that has a part. *)
Lemma primary_of_spec ps :
  existsb (String.prefix "openssl:") ps = true -> spec_primary ps = Some (primary_of ps).
Proof.
  intros H. unfold spec_primary, primary_of, priority. cbn [find String.append].
  destruct (existsb (String.prefix "nist:") ps); [reflexivity|].
  destruct (existsb (String.prefix "drand:") ps); [reflexivity|].
  rewrite H. reflexivity.
Qed.

Lemma be_bytes_length n x : List.length (be_bytes n x) = n.
Proof.
  revert x; induction n as [|n IH]; intros x; cbn [be_bytes]; [reflexivity|].
  rewrite length_app, IH. cbn. lia.
Qed.

Lemma be_bytes_range n x : Forall (fun b => 0 <= b < 256) (be_bytes n x).
Proof.
  revert x; induction n as [|n IH]; intros x; cbn [be_bytes]; [constructor|].
  apply Forall_app; split; [apply IH|]. constructor; [|constructor].
  rewrite land255. apply Z.mod_pos_bound. lia.
Qed.

Lemma fold_round_length {A} (f : list Z -> A -> list Z) (xs : list A) h :
  (forall st a, List.length st = 8%nat -> List.length (f st a) = 8%nat) ->
  List.length h = 8%nat -> List.length (fold_left f xs h) = 8%nat.
Proof.
  intros Hf. revert h; induction xs as [|a xs IH]; intros h Hh; cbn; auto.
Qed.

Lemma compress_length h b : List.length h = 8%nat -> List.length (compress h b) = 8%nat.
Proof.
  intros Hh. unfold compress. cbv zeta.
  rewrite length_map, length_combine, fold_round_length; [rewrite Hh; reflexivity| |exact Hh].
  intros st a Hst.
  do 8 (destruct st as [|? st]; [discriminate|]).
  destruct st; [reflexivity | discriminate].
Qed.

Lemma flat_map_be_bytes_length n l :
  List.length (flat_map (be_bytes n) l) = (n * List.length l)%nat.
Proof.
  induction l as [|x l IH]; cbn [flat_map]; [cbn; lia|].
  rewrite length_app, be_bytes_length, IH. cbn [List.length]. lia.
Qed.

(** A SHA-256 digest is 32 bytes. *)
Lemma sha256_length m : List.length (sha256 m) = 32%nat.
Proof.
  unfold sha256. cbv zeta. rewrite flat_map_be_bytes_length.
  rewrite fold_round_length; [reflexivity| |reflexivity].
  intros h b Hh. apply compress_length. exact Hh.
Qed.

Lemma sha256_range m : Forall (fun b => 0 <= b < 256) (sha256 m).
Proof.
  unfold sha256. cbv zeta. apply Forall_flat_map, Forall_forall.
  intros x _. apply be_bytes_range.
Qed.

Lemma hex_length l : String.length (hex l) = (2 * List.length l)%nat.
Proof. induction l as [|b l IH]; cbn [hex String.length List.length]; lia. Qed.

Lemma hex_prefix n l : substring 0 (2 * n) (hex l) = hex (firstn n l).
Proof.
  revert l; induction n as [|n IH]; intros l; [destruct (hex l); reflexivity|].
  destruct l as [|b l]; [reflexivity|].
  replace (2 * S n)%nat with (S (S (2 * n))) by lia.
  cbn [hex firstn substring]. rewrite IH. reflexivity.
Qed.

Lemma hex_digit_value d : 0 <= d < 16 -> hex_char_value (hex_digit d) = Some d.
Proof.
  intros H.
  assert (d = 0 \/ d = 1 \/ d = 2 \/ d = 3 \/ d = 4 \/ d = 5 \/ d = 6 \/ d = 7 \/
          d = 8 \/ d = 9 \/ d = 10 \/ d = 11 \/ d = 12 \/ d = 13 \/ d = 14 \/ d = 15)
    as Hd by lia.
  repeat (destruct Hd as [->|Hd]; [reflexivity|]). subst d. reflexivity.
Qed.

Lemma hex_digits_value_some acc l :
  Forall (fun b => 0 <= b < 256) l -> exists v, hex_digits_value acc (hex l) = Some v.
Proof.
  revert acc; induction l as [|b l IH]; intros acc Hl; [eexists; reflexivity|].
  inversion Hl as [|? ? Hb Hl']; subst.
  cbn [hex hex_digits_value].
  rewrite hex_digit_value.
  2:{ rewrite Z.shiftr_div_pow2 by lia. change (2 ^ 4) with 16.
      split; [apply Z.div_pos | apply Z.div_lt_upper_bound]; lia. }
  rewrite hex_digit_value.
  2:{ change 15 with (Z.ones 4). rewrite Z.land_ones by lia. apply Z.mod_pos_bound. lia. }
  apply IH. exact Hl'.
Qed.

Lemma Forall_firstn_byte n l :
  Forall (fun b => 0 <= b < 256) l -> Forall (fun b => 0 <= b < 256) (firstn n l).
Proof.
  revert l; induction n as [|n IH]; intros l H; [constructor|].
  destruct l as [|b l]; [constructor|]. inversion H; subst. cbn. constructor; auto.
Qed.

(** The first 16 hexadecimal characters of a digest always parse. *)
Lemma parse_hex_sha256 m : exists v, parse_hex (substring 0 16 (hex (sha256 m))) = Some v.
Proof.
  change 16%nat with (2 * 8)%nat. rewrite hex_prefix.
  pose proof (sha256_length m) as Hl. pose proof (sha256_range m) as Hr.
  apply (Forall_firstn_byte 8) in Hr.
  assert (Hn : List.length (firstn 8 (sha256 m)) = 8%nat) by (rewrite length_firstn; lia).
  destruct (firstn 8 (sha256 m)) as [|b l]; [discriminate|].
  change (parse_hex (hex (b :: l))) with (hex_digits_value 0 (hex (b :: l))).
  apply hex_digits_value_some. exact Hr.
Qed.

Lemma digest_parts_ok B ps :
  Z.abs B <= 8640000000000000 -> exists m, digest_parts B ps = Ret m.
Proof.
  intros HB. destruct (toISOString_in_range B HB) as [ts Hts].
  unfold digest_parts. rewrite Hts. cbn [bind]. cbv zeta.
  destruct (parse_hex_sha256 (utf8 (String.concat "|" (ps ++ [("ts:" ++ ts)%string]))))
    as [v Hv].
  rewrite Hv. eauto.
Qed.

Lemma maybeReseedFortuna_ok r f :
  exists u f1, maybeReseedFortuna (Some r) f = (Ret u, f1).
Proof. unfold maybeReseedFortuna. destruct (_ =? 0); cbn [randomBytes]; eauto. Qed.

(** When every remote fetch settles to [null] (a timeout, a network error
    or a non-2xx status) and the OS supplies entropy, a mixing call for any
    representable boundary returns a digit in [0,9], from any provider
    state, using only the local providers. *)
Theorem local_only_round_completes B o1 o2 o3 r s p :
  fetchWithTimeout o1 = Ret JNull -> fetchWithTimeout o2 = Ret JNull ->
  fetchWithTimeout o3 = Ret JNull -> Z.abs B <= 8640000000000000 ->
  exists m p', computeMixedDigit B (mkMixInput o1 o2 o3 (Some r) (Some s)) p = (Ret m, p') /\
               0 <= digit m <= 9.
Proof.
  intros H1 H2 H3 HB. unfold computeMixedDigit.
  assert (Hc : collect_parts (mkMixInput o1 o2 o3 (Some r) (Some s)) =
               Ret [("openssl:" ++ hex (be_bytes 32 r))%string]).
  { unfold collect_parts, fetchNIST, fetchDrand. cbn [in_nist in_drand1 in_drand2 in_openssl].
    rewrite H1, H2, H3. reflexivity. }
  rewrite Hc.
  destruct (maybeReseedFortuna_ok s (fortuna p)) as (u & f1 & Hr). cbn [in_reseed]. rewrite Hr.
  destruct (aesCtrNext (f_key f1) (f_counter f1) 32) as [out ctr]. cbv beta iota zeta.
  match goal with |- exists m p', (digest_parts B ?ps, ?pp) = _ /\ _ =>
    destruct (digest_parts_ok B ps HB) as [m Hm]; exists m, pp; rewrite Hm end.
  split; [reflexivity|].
  destruct (digest_parts_shape _ _ _ Hm) as [_ [_ (v & _ & ->)]].
  pose proof (Z.mod_pos_bound v 10 ltac:(lia)). lia.
Qed.

(** A local entropy failure, at line 129 or in the reseed at line 37, makes a
    mixing call throw. *)
Lemma computeMixedDigit_fatal B inp p :
  in_openssl inp = None \/ (in_reseed inp = None /\ (f_requests (fortuna p) + 1) mod 100 = 0) ->
  exists e p', computeMixedDigit B inp p = (Throw e, p').
Proof.
  intros Hf. unfold computeMixedDigit.
  destruct (collect_parts inp) as [ps|e] eqn:Hc; [|eauto].
  destruct Hf as [Hn | [Hr Hm]].
  - destruct (collect_parts_shape _ _ Hc) as (_ & _ & Hs & _). contradiction.
  - unfold maybeReseedFortuna. cbv zeta. rewrite Hm, Hr. cbn [Z.eqb randomBytes]. eauto.
Qed.


(** ** The specification's properties *)

(** C1: in every reachable state, the previews emitted so far pair one to one
    with the reveals emitted so far plus the reveal timers still pending,
    each pair carrying the same boundary text, digit and hash; in particular
    every reveal repeats the boundary, digit and hash of a preview. *)
Theorem C1_reveal_matches_preview (w : World) :
  reachable w ->
  Permutation (preview_keys (log w)) (reveal_keys (log w) ++ pending_reveal_keys (pending w)) /\
  (forall k, In k (reveal_keys (log w)) -> In k (preview_keys (log w))).
Proof.
  intros R. pose proof (inv_pair _ (reachable_inv w R)) as P. split; [exact P|].
  intros k Hk. apply (Permutation_in _ (Permutation_sym P)). apply in_or_app. left; exact Hk.
Qed.

Lemma C1_reveal_matches_preview_witness :
  reachable demo_world /\
  Permutation (preview_keys (log demo_world))
              (reveal_keys (log demo_world) ++ pending_reveal_keys (pending demo_world)) /\
  (forall k, In k (reveal_keys (log demo_world)) -> In k (preview_keys (log demo_world))).
Proof.
  assert (R : reachable demo_world)
    by (exists 10000, 5, 6, 7, demo_choices; split; [lia | vm_compute; reflexivity]).
  split; [exact R | exact (C1_reveal_matches_preview demo_world R)].
Defined.

(** C2 (code bug): a reachable state has two rounds in flight. The loop timer
    armed right after a preview (line 200) fires 10 ms later, long before
    the boundary, and starts mixing again while the first round's reveal is
    still pending. *)
Theorem C2_two_rounds_in_flight :
  reachable busy_world /\ active_rounds (pending busy_world) = 2%nat /\ ~ one_active_round.
Proof.
  assert (R : reachable busy_world)
    by (exists 10000, 5, 6, 7, busy_choices; split; [lia | vm_compute; reflexivity]).
  split; [exact R|]. split; [vm_compute; reflexivity|].
  intros H. specialize (H _ R). vm_compute in H. lia.
Qed.

(** C3 (code bug, the defect of C2): two consecutive rounds of a reachable run
    preview the same boundary, 1970-01-01T00:01:00.000Z. *)
Theorem C3_same_boundary_twice :
  reachable busy_world /\
  preview_boundaries (log busy_world) =
    ["1970-01-01T00:01:00.000Z"; "1970-01-01T00:01:00.000Z"]%string /\
  ~ boundaries_advance.
Proof.
  assert (R : reachable busy_world)
    by (exists 10000, 5, 6, 7, busy_choices; split; [lia | vm_compute; reflexivity]).
  split; [exact R|]. split; [vm_compute; reflexivity|].
  intros H. apply (H busy_world R 0%nat "1970-01-01T00:01:00.000Z"%string
                                    "1970-01-01T00:01:00.000Z"%string);
    [vm_compute; reflexivity | vm_compute; reflexivity | reflexivity].
Qed.

(** C4: a mixing call that returns yields a hash that is the hex text of the
    32-byte SHA-256 digest of its parts joined by "|", the last part being
    the boundary's timestamp; its digit is the first 16 hex characters of
    that hash read as an unsigned integer, modulo 10, hence in [0,9]. *)
Theorem C4_digit_from_digest (B : Z) (inp : MixInput) (p : Providers) (m : Mixed)
    (p' : Providers) :
  computeMixedDigit B inp p = (Ret m, p') ->
  hash m = hex (sha256 (utf8 (String.concat "|" (parts m)))) /\
  String.length (hash m) = 64%nat /\
  (exists ps ts, toISOString B = Ret ts /\ parts m = ps ++ [("ts:" ++ ts)%string]) /\
  (exists v, parse_hex (substring 0 16 (hash m)) = Some v /\ digit m = v mod 10) /\
  0 <= digit m <= 9.
Proof.
  intros H. destruct (computeMixedDigit_ret _ _ _ _ _ H) as (ps3 & ps5 & _ & Hd).
  destruct (digest_parts_shape _ _ _ Hd) as [(ts & Hts & Hp) [Hh Hok]].
  split; [exact Hh|]. split; [rewrite Hh, hex_length, sha256_length; reflexivity|].
  split; [eauto|]. split; [exact Hok|].
  destruct Hok as (v & _ & ->). pose proof (Z.mod_pos_bound v 10 ltac:(lia)). lia.
Qed.

Lemma C4_digit_from_digest_witness :
  computeMixedDigit 60000 inp_local P0 = (Ret mixed0, snd mix0) /\
  hash mixed0 = hex (sha256 (utf8 (String.concat "|" (parts mixed0)))) /\
  String.length (hash mixed0) = 64%nat /\
  (exists ps ts, toISOString 60000 = Ret ts /\ parts mixed0 = ps ++ [("ts:" ++ ts)%string]) /\
  (exists v, parse_hex (substring 0 16 (hash mixed0)) = Some v /\ digit mixed0 = v mod 10) /\
  0 <= digit mixed0 <= 9.
Proof.
  assert (H : computeMixedDigit 60000 inp_local P0 = (Ret mixed0, snd mix0))
    by (vm_compute; reflexivity).
  split; [exact H | exact (C4_digit_from_digest _ _ _ _ _ H)].
Defined.

(** C5 (code bug): a beacon response whose [pulse.outputValue] is a number
    is not turned into Unavailable: [fetchNIST] returns the number, and
    [nist.slice(0,64)] at line 122 throws a TypeError out of
    [computeMixedDigit], from any provider state, so the round does not
    complete even though the OS entropy is available. *)
Theorem C5_numeric_beacon_value_throws (B : Z) (p : Providers) :
  fetchNIST nist_numeric = Ret (JNum 123) /\
  computeMixedDigit B inp_nist_numeric p = (Throw TypeError, p).
Proof. split; reflexivity. Qed.

(** C6: in a reachable state the stats counts sum to the number of previews
    (completed rounds) emitted; one turn of the event loop either completes
    no round, leaving the counts and the previews unchanged, or completes
    one mixing call, emits its preview and adds one to the count of exactly
    the first provider in the order nist, drand, openssl, fortuna, chacha20
    with a part in that round; no count ever decreases. *)
Theorem C6_stats_count_rounds (w : World) (c : Choice) (w' : World) :
  reachable w -> step w c = Some w' ->
  stats_sum (stats w') = Z.of_nat (List.length (preview_keys (log w'))) /\
  (forall k, stat k (stats w) <= stat k (stats w')) /\
  ((stats w' = stats w /\ preview_keys (log w') = preview_keys (log w)) \/
   exists p rest B iso m p' k,
     take (pick c) (pending w) = Some (p, rest) /\ task p = TMix B iso /\
     computeMixedDigit B (input c) (providers w) = (Ret m, p') /\
     spec_primary (parts m) = Some k /\
     stats w' = bump (stats w) k /\
     preview_keys (log w') = preview_keys (log w) ++ [(iso, digit m, hash m)] /\
     (forall k', stat k' (stats w') = stat k' (stats w) + (if String.eqb k' k then 1 else 0))).
Proof.
  intros R Hs. pose proof (reachable_inv _ R) as I.
  pose proof (step_preserves _ _ _ I Hs) as I'.
  split; [exact (inv_sum _ I')|].
  destruct (step_cases _ _ _ Hs) as (p & rest & Ht & _ & _ & _ & Hw').
  assert (Hok : task_ok p).
  { pose proof (inv_tasks _ I) as F. rewrite Forall_forall in F. apply F.
    apply (Permutation_in _ (Permutation_sym (take_perm _ _ _ _ Ht))). left; reflexivity. }
  unfold task_ok in Hok.
  destruct (task p) as [|B iso|B iso m] eqn:Etask; subst w'; cbn [run_task now providers stats log pending].
  - destruct (toISOString (ceil_minute (fire_at c)));
      cbn [stats log add_pending halt]; (split; [intros; lia | left; auto]).
  - destruct (computeMixedDigit B (input c) (providers w)) as [[m|e] p'] eqn:Ec.
    + destruct (toISOString (B - 40000)) as [pa|e] eqn:Epa.
      * cbn [stats log scheduleLoop add_pending emit set_stats set_providers].
        split.
        { intros k. rewrite stat_bump. destruct (String.eqb k _); lia. }
        right. exists p, rest, B, iso, m, p', (primary_of (parts m)).
        split; [exact Ht|]. split; [exact Etask|]. split; [exact Ec|].
        split; [apply primary_of_spec; eapply mixed_has_openssl; eauto|].
        split; [reflexivity|]. split; [rewrite preview_keys_app; reflexivity|].
        intros k'. apply stat_bump.
      * exfalso. destruct Hok as [Hiso HB]. apply toISOString_ok in Hiso.
        destruct (toISOString_in_range (B - 40000)) as [s Hs']; [lia|]. congruence.
    + cbn [stats log set_providers halt]. split; [intros; lia | left; auto].
  - destruct (toISOString B) as [ra|e]; cbn [stats log emit halt]; (split; [intros; lia|left]).
    + split; [reflexivity|]. rewrite !preview_keys_app. cbn. rewrite !app_nil_r. reflexivity.
    + auto.
Qed.

Lemma C6_stats_count_rounds_witness :
  reachable mix_world /\ step mix_world mix_choice = Some round_world /\
  stats_sum (stats round_world) = Z.of_nat (List.length (preview_keys (log round_world))) /\
  (forall k, stat k (stats mix_world) <= stat k (stats round_world)) /\
  ((stats round_world = stats mix_world /\
    preview_keys (log round_world) = preview_keys (log mix_world)) \/
   exists p rest B iso m p' k,
     take (pick mix_choice) (pending mix_world) = Some (p, rest) /\ task p = TMix B iso /\
     computeMixedDigit B (input mix_choice) (providers mix_world) = (Ret m, p') /\
     spec_primary (parts m) = Some k /\
     stats round_world = bump (stats mix_world) k /\
     preview_keys (log round_world) = preview_keys (log mix_world) ++ [(iso, digit m, hash m)] /\
     (forall k', stat k' (stats round_world) =
                 stat k' (stats mix_world) + (if String.eqb k' k then 1 else 0))).
Proof.
  assert (R : reachable mix_world)
    by (exists 10000, 5, 6, 7, (firstn 1 demo_choices); split; [lia | vm_compute; reflexivity]).
  assert (S : step mix_world mix_choice = Some round_world) by (vm_compute; reflexivity).
  split; [exact R|]. split; [exact S|].
  exact (C6_stats_count_rounds mix_world mix_choice round_world R S).
Defined.

(** C7 (as stated, refuted): at a whole-minute instant the computed boundary
    is that instant itself, not an instant strictly after it; the code adds
    no forward epsilon. *)
Lemma C7_boundary_not_strictly_after : ~ boundary_strictly_after.
Proof. intros H. specialize (H 60000). vm_compute in H. discriminate H. Qed.

(** C7 (amended): the boundary computed at instant [t] is the whole-minute
    instant at or after [t] and less than a minute after it, i.e. the
    smallest whole minute not before [t]; it equals [t] when [t] is itself a
    whole minute. *)
Theorem C7_boundary_is_ceiling (t : Z) :
  ceil_minute t mod 60000 = 0 /\ t <= ceil_minute t < t + 60000 /\
  (t mod 60000 = 0 -> ceil_minute t = t).
Proof.
  unfold ceil_minute.
  pose proof (Z.div_mod (- t) 60000 ltac:(lia)) as Hd.
  pose proof (Z.mod_pos_bound (- t) 60000 ltac:(lia)) as Hm.
  split; [|split].
  - rewrite Z.mod_mul by lia. reflexivity.
  - lia.
  - intros Ht. assert (Hn : (- t) mod 60000 = 0).
    { rewrite <- Z.opp_involutive at 1. rewrite Z.mod_opp_l_z by lia; lia. }
    lia.
Qed.

(** C8 (as stated, refuted): when the mixing call of the first round throws
    for lack of OS entropy, the process exits and no continuation of the run
    ever previews another round. *)
Lemma C8_loop_not_rearmed : ~ rearms_after_fatal_mix.
Proof.
  intros H.
  assert (R : reachable mix_world)
    by (exists 10000, 5, 6, 7, (firstn 1 demo_choices); split; [lia | vm_compute; reflexivity]).
  destruct (H mix_world fatal_choice fatal_world
              (mkPending 40010 (TMix 60000 "1970-01-01T00:01:00.000Z"%string)) []
              60000 "1970-01-01T00:01:00.000Z"%string R)
    as (cs & w'' & Hr & Hlt); try (vm_compute; reflexivity).
  assert (Ha : alive fatal_world = false) by (vm_compute; reflexivity).
  assert (E : preview_keys (log fatal_world) = preview_keys (log mix_world))
    by (vm_compute; reflexivity).
  rewrite (run_halted _ _ _ Ha Hr), E in Hlt. lia.
Qed.

(** C8 (amended): if a round's mixing call fails for lack of local entropy
    ([crypto.randomBytes] throws at line 129, or in the reseed at line 37),
    the rejected timer callback ends the process: that turn emits nothing and
    leaves the stats alone, and no later callback runs, so no preview, reveal
    or stats event is ever emitted again (reveal timers already armed never
    fire) and the scheduler is not re-armed. *)
Theorem C8_fatal_mix_halts (w : World) (c : Choice) (w' : World) (p : Pending)
    (rest : list Pending) (B : Z) (iso : string) :
  step w c = Some w' ->
  take (pick c) (pending w) = Some (p, rest) -> task p = TMix B iso ->
  (in_openssl (input c) = None \/
   (in_reseed (input c) = None /\ (f_requests (fortuna (providers w)) + 1) mod 100 = 0)) ->
  alive w' = false /\ log w' = log w /\ stats w' = stats w /\
  (forall cs w'', run w' cs = Some w'' -> w'' = w').
Proof.
  intros Hs Ht Htask Hf.
  destruct (step_cases _ _ _ Hs) as (p0 & rest0 & Ht0 & _ & _ & _ & Hw').
  rewrite Ht in Ht0. injection Ht0 as E1 E2. subst p0 rest0.
  rewrite Htask in Hw'. cbn [run_task providers] in Hw'.
  destruct (computeMixedDigit_fatal B (input c) (providers w) Hf) as (e & p' & He).
  rewrite He in Hw'. subst w'. cbn [alive log stats halt set_providers].
  split; [reflexivity|]. split; [reflexivity|]. split; [reflexivity|].
  intros cs w''. apply run_halted. reflexivity.
Qed.

Lemma C8_fatal_mix_halts_witness :
  step before_crash crash_choice = Some crashed_world /\
  take (pick crash_choice) (pending before_crash) =
    Some (mkPending 46020 (TMix 60000 "1970-01-01T00:01:00.000Z"%string),
          firstn 1 (pending before_crash)) /\
  in_openssl (input crash_choice) = None /\
  List.length (pending_reveal_keys (pending crashed_world)) = 1%nat /\
  alive crashed_world = false /\ log crashed_world = log before_crash /\
  stats crashed_world = stats before_crash /\
  (forall cs w'', run crashed_world cs = Some w'' -> w'' = crashed_world).
Proof.
  assert (S : step before_crash crash_choice = Some crashed_world) by (vm_compute; reflexivity).
  assert (T : take (pick crash_choice) (pending before_crash) =
                Some (mkPending 46020 (TMix 60000 "1970-01-01T00:01:00.000Z"%string),
                      firstn 1 (pending before_crash)))
    by (vm_compute; reflexivity).
  assert (N : in_openssl (input crash_choice) = None) by reflexivity.
  assert (K : List.length (pending_reveal_keys (pending crashed_world)) = 1%nat)
    by (vm_compute; reflexivity).
  split; [exact S|]. split; [exact T|]. split; [exact N|]. split; [exact K|].
  exact (C8_fatal_mix_halts before_crash crash_choice crashed_world _ _ 60000 _ S T
           eq_refl (or_introl N)).
Defined.

(** C9: in every reachable state, each emitted preview and reveal carries a
    digit equal to the first 16 hexadecimal characters of its hash, read as
    an unsigned integer, modulo 10. *)
Theorem C9_digit_recomputable (w : World) (e : Event) :
  reachable w -> In e (log w) ->
  match e with
  | EvPreview _ _ d h | EvReveal _ _ d h =>
      exists v, parse_hex (substring 0 16 h) = Some v /\ d = v mod 10
  | EvStats _ => True
  end.
Proof.
  intros R Hin. pose proof (inv_events _ (reachable_inv w R)) as F.
  rewrite Forall_forall in F. exact (F e Hin).
Qed.

Lemma C9_digit_recomputable_witness :
  reachable demo_world /\
  In (nth 1 (log demo_world) (EvStats [])) (log demo_world) /\
  match nth 1 (log demo_world) (EvStats []) with
  | EvPreview _ _ d h | EvReveal _ _ d h =>
      exists v, parse_hex (substring 0 16 h) = Some v /\ d = v mod 10
  | EvStats _ => True
  end.
Proof.
  assert (R : reachable demo_world)
    by (exists 10000, 5, 6, 7, demo_choices; split; [lia | vm_compute; reflexivity]).
  assert (Hin : In (nth 1 (log demo_world) (EvStats [])) (log demo_world))
    by (apply nth_In; vm_compute; lia).
  split; [exact R|]. split; [exact Hin|].
  exact (C9_digit_recomputable demo_world _ R Hin).
Defined.




Lemma forallb_byte_Forall l :
  forallb (fun b => (0 <=? b) && (b <? 256)) l = true <-> Forall (fun b => 0 <= b < 256) l.
Proof.
  rewrite forallb_forall, Forall_forall. split; intros H b Hin; specialize (H b Hin).
  - apply andb_prop in H as [H1 H2]. apply Z.leb_le in H1. apply Z.ltb_lt in H2. lia.
  - apply andb_true_intro. split; [apply Z.leb_le | apply Z.ltb_lt]; lia.
Qed.

(** [incrementCounter] adds one to a 16-byte counter read as a 128-bit
    big-endian integer, wrapping at [2^128], and keeps it 16 bytes. *)
Theorem incrementCounter_adds_one (c : list Z) :
  List.length c = 16%nat -> forallb (fun b => (0 <=? b) && (b <? 256)) c = true ->
  be_value (incrementCounter c) = (be_value c + 1) mod 2^128 /\
  List.length (incrementCounter c) = 16%nat /\
  forallb (fun b => (0 <=? b) && (b <? 256)) (incrementCounter c) = true.
Proof.
  intros Hl Hb. apply forallb_byte_Forall in Hb.
  destruct (increment_loop_spec 16 c Hl Hb) as (A & B & C).
  unfold incrementCounter. rewrite A. split; [reflexivity|]. split; [exact B|].
  apply forallb_byte_Forall. exact C.
Qed.

Lemma incrementCounter_adds_one_witness :
  List.length (repeat 255 16) = 16%nat /\
  forallb (fun b => (0 <=? b) && (b <? 256)) (repeat 255 16) = true /\
  be_value (incrementCounter (repeat 255 16)) = (be_value (repeat 255 16) + 1) mod 2^128 /\
  List.length (incrementCounter (repeat 255 16)) = 16%nat /\
  forallb (fun b => (0 <=? b) && (b <? 256)) (incrementCounter (repeat 255 16)) = true.
Proof.
  assert (L : List.length (repeat 255 16) = 16%nat) by reflexivity.
  assert (F : forallb (fun b => (0 <=? b) && (b <? 256)) (repeat 255 16) = true)
    by (vm_compute; reflexivity).
  split; [exact L|]. split; [exact F|]. exact (incrementCounter_adds_one _ L F).
Defined.

Lemma ceil_minute_offset t :
  ceil_minute t = t + (if t mod 60000 =? 0 then 0 else 60000 - t mod 60000).
Proof.
  unfold ceil_minute.
  pose proof (Z.div_mod (- t) 60000 ltac:(lia)) as Hd.
  destruct (Z.eqb_spec (t mod 60000) 0) as [E|E].
  - rewrite Z.mod_opp_l_z in Hd by lia. lia.
  - rewrite Z.mod_opp_l_nz in Hd by lia. lia.
Qed.

(** [scheduleLoop] arms its timer [max(0, ms) + 10] ms ahead, where
    [ms = msUntilNextPreview()] lies in [[-40000, 20000)]; the timer waits
    exactly 10 ms whenever the clock is at a whole minute or at least 20 s
    past one. *)
Theorem scheduleLoop_timer (w : World) :
  pending (scheduleLoop w) =
    pending w ++ [mkPending (now w + (Z.max 0 (msUntilNextPreview (now w)) + 10)) TLoop] /\
  -40000 <= msUntilNextPreview (now w) < 20000 /\
  (msUntilNextPreview (now w) <= 0 <-> now w mod 60000 = 0 \/ 20000 <= now w mod 60000).
Proof.
  assert (Hm : -40000 <= msUntilNextPreview (now w) < 20000 /\
               (msUntilNextPreview (now w) <= 0 <->
                now w mod 60000 = 0 \/ 20000 <= now w mod 60000)).
  { unfold msUntilNextPreview. cbv zeta. rewrite ceil_minute_offset.
    pose proof (Z.mod_pos_bound (now w) 60000 ltac:(lia)).
    destruct (Z.eqb_spec (now w mod 60000) 0); lia. }
  split; [|exact Hm].
  unfold scheduleLoop, add_pending, timer_delay. cbn [pending now].
  destruct Hm as [Hr _].
  replace ((Z.max 0 (msUntilNextPreview (now w)) + 10 <? 1) ||
           (2147483647 <? Z.max 0 (msUntilNextPreview (now w)) + 10)) with false
    by (symmetry; apply orb_false_iff; split; apply Z.ltb_ge; lia).
  reflexivity.
Qed.

Lemma fetchWithTimeout_ret o : exists j, fetchWithTimeout o = Ret j.
Proof.
  destruct o as [| |s [j|]]; unfold fetchWithTimeout, catch; eauto;
    destruct (negb _); eauto.
Qed.

Lemma drand_pick_null_or_truthy j v :
  drand_pick j = Some (Ret v) -> v = JNull \/ truthy v = true.
Proof.
  unfold drand_pick. destruct (_ && _); [|discriminate].
  destruct (truthy (get_prop j "random")) eqn:Er.
  - intros H. injection H as <-. auto.
  - destruct (match get_prop j "round" with JNull => Ret JNull | _ => _ end) as [r|e];
      cbn [bind]; [|discriminate].
    intros H. injection H as <-. destruct (truthy r) eqn:E; [auto|].
    unfold js_or. destruct (truthy (get_prop j "signature")) eqn:Es; auto.
Qed.

(** Whenever [fetchDrand] returns, its value is [null] or a truthy value. *)
Theorem fetchDrand_null_or_truthy (o1 o2 : FetchOutcome) (v : json) :
  fetchDrand o1 o2 = Ret v -> v = JNull \/ truthy v = true.
Proof.
  unfold fetchDrand.
  destruct (fetchWithTimeout_ret o1) as [j1 H1]. rewrite H1. cbn [bind].
  destruct (drand_pick j1) as [r|] eqn:E1.
  - intros ->. eapply drand_pick_null_or_truthy; eauto.
  - destruct (fetchWithTimeout_ret o2) as [j2 H2]. rewrite H2. cbn [bind].
    destruct (drand_pick j2) as [r|] eqn:E2.
    + intros ->. eapply drand_pick_null_or_truthy; eauto.
    + intros H. injection H as <-. auto.
Qed.

Lemma fetchDrand_null_or_truthy_witness :
  fetchDrand (FResponse 200 (Some (JObj [("round", JNum 5); ("random", JStr "ab")]%string)))
             FTimeout = Ret (JStr "ab") /\
  (JStr "ab" = JNull \/ truthy (JStr "ab") = true).
Proof.
  assert (H : fetchDrand (FResponse 200 (Some (JObj [("round", JNum 5); ("random", JStr "ab")]%string)))
                         FTimeout = Ret (JStr "ab")) by (vm_compute; reflexivity).
  split; [exact H | exact (fetchDrand_null_or_truthy _ _ _ H)].
Defined.

Lemma local_only_round_completes_witness :
  exists m p', computeMixedDigit 60000 inp_local P0 = (Ret m, p') /\ 0 <= digit m <= 9.
Proof.
  exact (local_only_round_completes 60000 FTimeout FTimeout FTimeout 1 2 P0
           eq_refl eq_refl eq_refl ltac:(lia)).
Defined.

End Proofs.
